(** * Scaffold generator: name normalisation and the generation pipeline

    A shallow embedding of the Yeoman generator [g] (the version that
    reads [expressots.config.ts]) together with the properties its design
    document states about it.

    Strings.  A JavaScript string is a sequence of UTF-16 code units.  The
    embedding uses [string], whose characters are the 256 code units
    U+0000..U+00FF.  On that range
    - the regular-expression classes [[A-Z]], [[a-z]] and [[_\-\s]] are
      exact ([\s] holds TAB, LF, VT, FF, CR, SPACE and NBSP there);
    - [String.prototype.toLowerCase] is exact: it moves A..Z and the
      Latin-1 capitals U+00C0..U+00DE (U+00D7 apart) up by 32 and leaves
      every other code unit alone;
    - [String.prototype.toUpperCase] is exact but for U+00B5, U+00DF and
      U+00FF, whose upper-case forms leave the range; the embedding leaves
      these three unchanged, and no concrete evaluation below uses them.

    Effects.  [env.error] raises (it throws the error it is given), prompts,
    [mkdir] and [fs.copyTpl] are recorded in a trace, and the answers of the
    user and the outcome of [mkdir] are inputs of a run.  The trace lists
    the calls the code makes, in the order it makes them, with the values
    it passes: it says nothing of what reaches the disk.  The callback of
    [mkdir], which Node calls once [writing] has returned, is put right
    after the [mkdir] it belongs to, and what it throws is taken as the
    outcome of the run. *)

From Stdlib Require Import String Ascii List Bool NArith Arith Lia.
Import ListNotations.
Open Scope string_scope.

(** ** Code units and the character classes of the regular expressions *)

Module JsChar.

Definition code (c : ascii) : N := N_of_ascii c.

Definition in_range (lo hi : N) (c : ascii) : bool :=
  ((lo <=? code c) && (code c <=? hi))%N.

(** [[A-Z]] *)
Definition is_AZ (c : ascii) : bool := in_range 65 90 c.

(** [[a-z]] *)
Definition is_az (c : ascii) : bool := in_range 97 122 c.

(** [\s] restricted to U+0000..U+00FF *)
Definition is_space (c : ascii) : bool :=
  in_range 9 13 c || (code c =? 32)%N || (code c =? 160)%N.

(** [[_\-\s]] *)
Definition is_sep (c : ascii) : bool :=
  (code c =? 95)%N || (code c =? 45)%N || is_space c.

(** Latin-1 capitals other than the multiplication sign *)
Definition is_latin1_upper (c : ascii) : bool :=
  in_range 192 222 c && negb (code c =? 215)%N.

(** Latin-1 small letters with a capital in range (division sign and
    U+00FF apart) *)
Definition is_latin1_lower (c : ascii) : bool :=
  in_range 224 254 c && negb (code c =? 247)%N.

Definition to_lower (c : ascii) : ascii :=
  if is_AZ c || is_latin1_upper c then ascii_of_N (code c + 32) else c.

Definition to_upper (c : ascii) : ascii :=
  if is_az c || is_latin1_lower c then ascii_of_N (code c - 32) else c.

(** seven-bit code units *)
Definition is_ascii (c : ascii) : bool := (code c <? 128)%N.

End JsChar.
Import JsChar.

(** ** The string methods the generator calls *)

Module JsString.

Fixpoint toLowerCase (s : string) : string :=
  match s with
  | "" => ""
  | String c s' => String (to_lower c) (toLowerCase s')
  end.

Fixpoint toUpperCase (s : string) : string :=
  match s with
  | "" => ""
  | String c s' => String (to_upper c) (toUpperCase s')
  end.

(** [s.charAt(0)]: the first code unit, or the empty string *)
Definition charAt0 (s : string) : string :=
  match s with
  | "" => ""
  | String c _ => String c ""
  end.

(** [s.slice(1)] *)
Definition slice1 (s : string) : string :=
  match s with
  | "" => ""
  | String _ s' => s'
  end.

(** [s.slice(n)] for [0 <= n] *)
Fixpoint slice (n : nat) (s : string) : string :=
  match n, s with
  | O, _ => s
  | S n', String _ s' => slice n' s'
  | S _, "" => ""
  end.

Definition is_empty (s : string) : bool :=
  match s with "" => true | _ => false end.

(** [ws.join('')] *)
Definition join (ws : list string) : string := String.concat "" ws.

(** every code unit of the string is below U+0080 *)
Fixpoint all_ascii (s : string) : bool :=
  match s with
  | "" => true
  | String c s' => is_ascii c && all_ascii s'
  end.

(** every code unit of the string is in [[_\-\s]] *)
Fixpoint all_sep (s : string) : bool :=
  match s with
  | "" => true
  | String c s' => is_sep c && all_sep s'
  end.

(** no code unit of the string is in [[_\-\s]] *)
Fixpoint no_sep (s : string) : bool :=
  match s with
  | "" => true
  | String c s' => negb (is_sep c) && no_sep s'
  end.

End JsString.
Import JsString.

(** ** [str.split(/[_\-\s]+|(?=[A-Z])/)]

    [RegExp.prototype[Symbol.split]] keeps two indices, [p] (where the
    current piece starts) and [q] (where the next match is tried), and tries
    the expression at [q] only.  A match that ends at [e = p] is skipped,
    any other match closes the piece [S[p..q)] and restarts at [p = q = e].
    Below [cur] is [S[p..q)] and [rest] is [S[q..)]. *)

Module Split.

(** length of the longest run of [[_\-\s]] at the head of [s] *)
Fixpoint sep_run (s : string) : nat :=
  match s with
  | String c s' => if is_sep c then S (sep_run s') else 0
  | "" => 0
  end.

(** The expression tried at the head of [s]: the length of the match.
    The first alternative is greedy and is tried first; the second is the
    zero-width look-ahead. *)
Definition regex_match (s : string) : option nat :=
  match sep_run s with
  | S n => Some (S n)
  | O =>
      match s with
      | String c _ => if is_AZ c then Some 0 else None
      | "" => None
      end
  end.

Fixpoint split_loop (fuel : nat) (cur rest : string) : list string :=
  match fuel with
  | O => [cur ++ rest]
  | S fuel' =>
      match rest with
      | "" => [cur]
      | String c tl =>
          match regex_match rest with
          | None => split_loop fuel' (cur ++ String c "") tl
          | Some n =>
              if (n =? 0)%nat && is_empty cur
              then split_loop fuel' (cur ++ String c "") tl
              else cur :: split_loop fuel' "" (slice n rest)
          end
      end
  end.

(** A closed piece costs one round without progress, so twice the length
    and one round are enough. *)
Definition split (s : string) : list string :=
  split_loop (2 * String.length s + 1) "" s.

End Split.

(** ** The two case converters of the generator *)

(** [word => word.charAt(0).toUpperCase() + word.slice(1).toLowerCase()] *)
Definition capitalize (word : string) : string :=
  toUpperCase (charAt0 word) ++ toLowerCase (slice1 word).

Definition _toPascalCase (str : string) : string :=
  join (map capitalize (Split.split str)).

(** [str.replace(/([a-z])([A-Z])/g, '$1-$2')]: the matches are found from
    left to right and the search resumes after the end of each match. *)
Fixpoint replace_lower_upper (s : string) : string :=
  match s with
  | "" => ""
  | String c1 r =>
      match r with
      | String c2 tl =>
          if is_az c1 && is_AZ c2
          then String c1 (String "-" (String c2 (replace_lower_upper tl)))
          else String c1 (replace_lower_upper r)
      | "" => String c1 ""
      end
  end.

Definition _toKebabCase (str : string) : string :=
  toLowerCase (replace_lower_upper str).

(** ** The generator

    [this.options] after the constructor has declared the two positional
    arguments and the [spec] option; [None] is [undefined]. *)

Record Options := {
  opt_schematic : option string;
  opt_name : option string;
  opt_spec : bool
}.

(** What the command line carries: the positional arguments in order, and
    the [spec] flag when [--spec] or [--no-spec] was given. *)
Record CommandLine := {
  cli_args : list string;
  cli_spec : option bool
}.

Record props := {
  schematic : option string;
  name : option string
}.

Inductive Pattern := LOWER_CASE | KEBAB_CASE | PASCAL_CASE | CAMEL_CASE.

Definition Pattern_value (p : Pattern) : string :=
  match p with
  | LOWER_CASE => "lowercase"
  | KEBAB_CASE => "kebab-case"
  | PASCAL_CASE => "PascalCase"
  | CAMEL_CASE => "camelCase"
  end.

(** [scaffoldPattern] is [None] when the object has no such property. *)
Record config := {
  scaffoldPattern : option Pattern
}.

Record Generator := {
  options : Options;
  answers : props;
  expressoConfig : config
}.

(** What a run reads from outside: the [config] export of
    [expressots.config.ts] ([None] when the file does not exist), what the
    user answers when asked, and the error [mkdir] reports, if any. *)
Record World := {
  config_file : option config;
  answer_schematic : string;
  answer_name : string;
  mkdir_error : option string
}.

Inductive event :=
| Prompt (type name message : string)
| Mkdir (path : string)
| CopyTpl (template destination className : string).

Inductive error :=
| Error (message : string)
| TypeError (message : string).

Inductive result (A : Type) :=
| Returned (a : A)
| Threw (e : error).
Arguments Returned {A} a.
Arguments Threw {A} e.

Record state := {
  this : Generator;
  log : list event
}.

(** A method of the generator: it reads and updates [this], appends to the
    log, and returns or throws.  The state reached when it throws is kept,
    so that what happened before the throw stays observable. *)
Definition M (A : Type) : Type := state -> result A * state.

Definition ret {A} (a : A) : M A := fun s => (Returned a, s).

Definition bind {A B} (m : M A) (k : A -> M B) : M B :=
  fun s =>
    match m s with
    | (Returned a, s') => k a s'
    | (Threw e, s') => (Threw e, s')
    end.

Definition throw {A} (e : error) : M A := fun s => (Threw e, s).

Definition get_this : M Generator := fun s => (Returned (this s), s).

Definition set_this (g : Generator) : M unit :=
  fun s => (Returned tt, {| this := g; log := log s |}).

Definition emit (e : event) : M unit :=
  fun s => (Returned tt, {| this := this s; log := log s ++ [e] |}).

Declare Scope gen_scope.
Delimit Scope gen_scope with gen.
Notation "x <- m ;; k" := (bind m (fun x => k))
  (at level 61, m at next level, right associativity) : gen_scope.
Notation "m ;; k" := (bind m (fun _ => k))
  (at level 61, right associativity) : gen_scope.
Open Scope gen_scope.

(** [this.env.error(err)] throws [err]. *)
Definition env_error (e : error) : M unit := throw e.

(** ToBoolean on a string or [undefined] *)
Definition truthy (x : option string) : bool :=
  match x with
  | Some s => negb (is_empty s)
  | None => false
  end.

(** [a ?? b] *)
Definition nullish (a b : option string) : option string :=
  match a with
  | Some _ => a
  | None => b
  end.

(** a value inside a template literal *)
Definition interpolate (x : option string) : string :=
  match x with
  | Some s => s
  | None => "undefined"
  end.

Definition nth_arg (n : nat) (args : list string) : option string :=
  nth_error args n.

Definition constructor (cl : CommandLine) : Generator :=
  {| options :=
       {| opt_schematic := nth_arg 0 (cli_args cl);
          opt_name := nth_arg 1 (cli_args cl);
          opt_spec := match cli_spec cl with Some b => b | None => true end |};
     answers := {| schematic := None; name := None |};
     expressoConfig := {| scaffoldPattern := None |} |}.

Definition config_missing : error :=
  Error "The expressots.config.ts file is missing. Please create it in the root of your project.".

Definition initializing (w : World) : M unit :=
  (if negb (match config_file w with Some _ => true | None => false end)
   then env_error config_missing
   else ret tt) ;;
  match config_file w with
  | Some c =>
      g <- get_this ;;
      set_this {| options := options g;
                  answers := answers g;
                  expressoConfig := {| scaffoldPattern := scaffoldPattern c |} |}
  | None => throw (Error "Cannot find module")
  end.

(** One question of [this.prompt]: it is put to the user when [when] holds,
    and the answer object has no entry for it otherwise. *)
Definition prompt (type qname message : string) (when : bool)
    (answer : string) : M (option string) :=
  if when then emit (Prompt type qname message) ;; ret (Some answer)
  else ret None.

Definition prompting (w : World) : M unit :=
  g <- get_this ;;
  asked <- prompt "list" "schematic" "What do you want to generate?"
             (negb (truthy (opt_schematic (options g))))
             (answer_schematic w) ;;
  set_this {| options := options g;
              answers := {| schematic := nullish asked (opt_schematic (options g));
                            name := name (answers g) |};
              expressoConfig := expressoConfig g |} ;;
  g <- get_this ;;
  asked <- prompt "input" "name"
             ("What is the name of the " ++ interpolate (schematic (answers g)) ++ "?")
             (negb (truthy (opt_name (options g))))
             (answer_name w) ;;
  set_this {| options := options g;
              answers := {| schematic := schematic (answers g);
                            name := nullish asked (opt_name (options g)) |};
              expressoConfig := expressoConfig g |}.

Definition schematic_kinds : list string :=
  ["usecase"; "controller"; "dto"; "service"].

(** [kinds.includes(x)] *)
Definition includes (kinds : list string) (x : option string) : bool :=
  match x with
  | Some s => existsb (String.eqb s) kinds
  | None => false
  end.

Definition _schematicValidation (g : Generator) : bool :=
  negb (includes schematic_kinds (schematic (answers g))).

Definition unsupported_schematic (kind : option string) : error :=
  Error ("The schematic " ++ interpolate kind
         ++ " is not supported. Please use one of the following: usecase, controller, service").

Definition validate : M unit :=
  g <- get_this ;;
  if _schematicValidation g
  then env_error (unsupported_schematic (schematic (answers g)))
  else ret tt.

(** The [switch] of [writing] over [this.expressoConfig.scaffoldPattern];
    it has no [default] branch. *)
Definition scaffold_name (pattern : option Pattern) (name : string) : string :=
  match pattern with
  | Some LOWER_CASE => toLowerCase name
  | Some KEBAB_CASE => _toKebabCase name
  | Some PASCAL_CASE => _toPascalCase name
  | Some CAMEL_CASE => toLowerCase (charAt0 name) ++ slice1 name
  | None => name
  end.

(** The callback handed to [mkdir]; Node calls it later, with the error of
    [mkdir] if there is one. *)
Definition mkdir_callback (w : World) (kind : option string)
    (name : option string) : M unit :=
  match mkdir_error w with
  | Some err => env_error (Error err)
  | None => ret tt
  end ;;
  match name with
  | Some n =>
      emit (CopyTpl (interpolate kind ++ ".tpl")
              ("src/" ++ n ++ "/" ++ n ++ "." ++ interpolate kind ++ ".ts")
              (_toPascalCase n))
  | None => throw (TypeError "Cannot read properties of undefined (reading 'split')")
  end.

Definition writing (w : World) : M unit :=
  g <- get_this ;;
  let kind := schematic (answers g) in
  name <- match name (answers g), scaffoldPattern (expressoConfig g) with
          | Some n, p => ret (Some (scaffold_name p n))
          | None, None => ret None
          | None, Some _ =>
              throw (TypeError "Cannot read properties of undefined")
          end ;;
  emit (Mkdir ("src/" ++ interpolate name)) ;;
  mkdir_callback w kind name.

Definition end_ : M unit := ret tt.

(** The run loop calls the methods by priority: [initializing], [prompting],
    the methods with other names ([validate]), [writing], [end]; a throw
    ends the run. *)
Definition run_loop (w : World) : M unit :=
  initializing w ;; prompting w ;; validate ;; writing w ;; end_.

Definition run (w : World) (cl : CommandLine) : result unit * state :=
  run_loop w {| this := constructor cl; log := [] |}.

Definition run_log (w : World) (cl : CommandLine) : list event :=
  log (snd (run w cl)).

Definition run_result (w : World) (cl : CommandLine) : result unit :=
  fst (run w cl).

(** ** Reading a log *)

Definition is_prompt (e : event) : bool :=
  match e with Prompt _ _ _ => true | _ => false end.

(** the calls of [fs.copyTpl]: the target of each and the class name given
    to its template *)
Fixpoint files_written (l : list event) : list (string * string) :=
  match l with
  | [] => []
  | CopyTpl _ dest cls :: l' => (dest, cls) :: files_written l'
  | _ :: l' => files_written l'
  end.

(** the calls of [mkdir]: the path given to each *)
Fixpoint folders_made (l : list event) : list string :=
  match l with
  | [] => []
  | Mkdir p :: l' => p :: folders_made l'
  | _ :: l' => folders_made l'
  end.

(** [hay.includes(needle)] *)
Definition str_includes (needle hay : string) : bool :=
  match String.index 0 needle hay with
  | Some _ => true
  | None => false
  end.

(** ** The converters as the design document words them

    These follow the text of the document, not the code; the theorems below
    compare them with [_toPascalCase] and [_toKebabCase].  The text speaks
    of uppercase and lowercase letters; which code units count as such is
    an argument of the definitions. *)

Module Described.

(** the uppercase letters among the code units: A..Z and the capitals
    U+00C0..U+00DE (U+00D7 apart) *)
Definition is_uppercase (c : ascii) : bool := is_AZ c || is_latin1_upper c.

(** the lowercase letters among the code units: a..z, U+00B5 and
    U+00DF..U+00FF (U+00F7 apart) *)
Definition is_lowercase (c : ascii) : bool :=
  is_az c || (code c =? 181)%N || (in_range 223 255 c && negb (code c =? 247)%N).

(** "split the input on runs of underscore/hyphen/whitespace": every
    separator closes a field, and a run leaves empty fields behind *)
Fixpoint fields (cur s : string) : list string :=
  match s with
  | "" => [cur]
  | String c s' =>
      if is_sep c then cur :: fields "" s'
      else fields (cur ++ String c "") s'
  end.

(** "at each position immediately preceding an uppercase letter" *)
Fixpoint pieces (upper : ascii -> bool) (cur s : string) : list string :=
  match s with
  | "" => [cur]
  | String c s' =>
      if upper c then cur :: pieces upper (String c "") s'
      else pieces upper (cur ++ String c "") s'
  end.

Definition words (upper : ascii -> bool) (s : string) : list string :=
  filter (fun w => negb (is_empty w)) (flat_map (pieces upper "") (fields "" s)).

(** "for each resulting word, uppercase its first character and lowercase
    the remainder; concatenate with no separator" *)
Definition toPascalCase_with (upper : ascii -> bool) (s : string) : string :=
  join (map (fun w => toUpperCase (charAt0 w) ++ toLowerCase (slice1 w))
            (words upper s)).

(** "insert a hyphen between every adjacent lowercase-then-uppercase
    letter pair" *)
Fixpoint hyphenate (lower upper : ascii -> bool) (s : string) : string :=
  match s with
  | "" => ""
  | String c1 r =>
      String c1
        match r with
        | String c2 _ =>
            if lower c1 && upper c2 then String "-" (hyphenate lower upper r)
            else hyphenate lower upper r
        | "" => ""
        end
  end.

(** "then lowercase the whole string" *)
Definition toKebabCase_with (lower upper : ascii -> bool) (s : string) : string :=
  toLowerCase (hyphenate lower upper s).

(** the text as it stands: every uppercase letter, every lowercase letter *)
Definition toPascalCase : string -> string := toPascalCase_with is_uppercase.

Definition toKebabCase : string -> string :=
  toKebabCase_with is_lowercase is_uppercase.

End Described.

(** The same text with "uppercase letter" read as [[A-Z]] and "lowercase
    letter" as [[a-z]], the classes of the two regular expressions. *)

Module DescribedAZ.

Definition toPascalCase : string -> string := Described.toPascalCase_with is_AZ.

Definition toKebabCase : string -> string := Described.toKebabCase_with is_az is_AZ.

End DescribedAZ.

(** the pieces that are not empty *)
Definition kept (ws : list string) : list string :=
  filter (fun w => negb (is_empty w)) ws.

(** ** One pass over the input

    [_toPascalCase] read as a single left-to-right scan: [fresh] holds when
    the next code unit would start a piece. *)
Fixpoint pascal_scan (fresh : bool) (s : string) : string :=
  match s with
  | "" => ""
  | String c s' =>
      if is_sep c then pascal_scan true s'
      else if fresh || is_AZ c then String (to_upper c) (pascal_scan false s')
      else String (to_lower c) (pascal_scan false s')
  end.

(** the string made of [a], [_] and the code unit U+00E9 (e with acute accent) *)
Definition a_underscore_eacute : string :=
  String "a" (String "_" (String "233" "")).

(** the string made of [x], the code unit U+00C9 (E with acute accent)
    and [y] *)
Definition x_Eacute_y : string :=
  String "x" (String "201" (String "y" "")).

(** the string made of [a] and the code unit U+00C9 *)
Definition a_Eacute : string := String "a" (String "201" "").

(** the string made of the code unit U+00E9 and [Cole] *)
Definition eacute_Cole : string := String "233" "Cole".

(** a run in a project whose configuration file exists *)
Definition project (p : option Pattern) : World :=
  {| config_file := Some {| scaffoldPattern := p |};
     answer_schematic := "usecase";
     answer_name := "";
     mkdir_error := None |}.

Definition command (args : list string) : CommandLine :=
  {| cli_args := args; cli_spec := None |}.


(** ** The first version of the generator

    It has no configuration file: [initializing] is empty and [writing]
    uses the name as it was given.  [prompting] and [validate] have the
    text of the later version; the field [expressoConfig] of the state is
    not touched. *)

Module Legacy.

Definition _pascalCase (str : string) : string :=
  join (map capitalize (Split.split str)).

Definition initializing : M unit := ret tt.

Definition writing (w : World) : M unit :=
  g <- get_this ;;
  let kind := schematic (answers g) in
  let given := name (answers g) in
  emit (Mkdir ("src/" ++ interpolate given)) ;;
  match mkdir_error w with
  | Some err => env_error (Error err)
  | None => ret tt
  end ;;
  match given with
  | Some n =>
      emit (CopyTpl (interpolate kind ++ ".tpl")
              ("src/" ++ n ++ "/" ++ n ++ "." ++ interpolate kind ++ ".ts")
              (_pascalCase n))
  | None => throw (TypeError "Cannot read properties of undefined (reading 'split')")
  end.

Definition run_loop (w : World) : M unit :=
  initializing ;; prompting w ;; validate ;; writing w ;; end_.

Definition run (w : World) (cl : CommandLine) : result unit * state :=
  run_loop w {| this := constructor cl; log := [] |}.

End Legacy.

(** ** Shapes of strings *)

(** the string without its code units of [[_\-\s]] *)
Fixpoint strip_sep (s : string) : string :=
  match s with
  | "" => ""
  | String c s' => if is_sep c then strip_sep s' else String c (strip_sep s')
  end.

(** no code unit of the string is in [[A-Z]] *)
Fixpoint no_AZ (s : string) : bool :=
  match s with
  | "" => true
  | String c s' => negb (is_AZ c) && no_AZ s'
  end.

(** a piece of the split: no separator in it, and no capital after its
    first code unit *)
Definition piece_ok (w : string) : bool := no_sep w && no_AZ (slice1 w).

(** the string does not start with a code unit of [[a-z]] *)
Definition head_not_small (s : string) : bool :=
  match s with
  | "" => true
  | String c _ => negb (is_az c)
  end.

(** Every capital of [[A-Z]] in the string stands at the start, after a
    separator or after a code unit of [[a-z]]; [ok] says that the position
    before the string is one of these. *)
Fixpoint capitals_after_small (ok : bool) (s : string) : bool :=
  match s with
  | "" => true
  | String c s' =>
      if is_sep c then capitals_after_small true s'
      else (if is_AZ c then ok else true) && capitals_after_small (is_az c) s'
  end.

(** what [replace_lower_upper] gives for [s] when the code unit before [s]
    was in [[a-z]] or not *)
Definition hyphen_then (small_before : bool) (s : string) : string :=
  match s with
  | String c _ =>
      if small_before && is_AZ c
      then String "-" (Described.hyphenate is_az is_AZ s)
      else Described.hyphenate is_az is_AZ s
  | "" => ""
  end.

(** ** What a run asks and with what values it goes on *)

(** the value [prompting] stores for an argument [opt] and an answer *)
Definition resolve (opt : option string) (answer : string) : string :=
  if truthy opt then interpolate opt else answer.

Definition prompts_of (w : World) (cl : CommandLine) : list event :=
  (if truthy (nth_arg 0 (cli_args cl)) then []
   else [Prompt "list" "schematic" "What do you want to generate?"]) ++
  (if truthy (nth_arg 1 (cli_args cl)) then []
   else [Prompt "input" "name"
           ("What is the name of the "
            ++ resolve (nth_arg 0 (cli_args cl)) (answer_schematic w) ++ "?")]).

Definition is_fs (e : event) : bool := negb (is_prompt e).


(** * Properties *)

(** ** Code units: facts checked on all 256 of them *)

Ltac all_code_units c :=
  destruct c as [[] [] [] [] [] [] [] []]; vm_compute; intros; congruence.

Lemma to_lower_not_AZ c : is_AZ (to_lower c) = false.
Proof. all_code_units c. Qed.

Lemma to_lower_idem c : to_lower (to_lower c) = to_lower c.
Proof. all_code_units c. Qed.

Lemma to_lower_sep c : is_sep (to_lower c) = is_sep c.
Proof. all_code_units c. Qed.

Lemma to_upper_sep c : is_sep (to_upper c) = is_sep c.
Proof. all_code_units c. Qed.

Lemma to_upper_idem c : to_upper (to_upper c) = to_upper c.
Proof. all_code_units c. Qed.

Lemma to_upper_lower c : to_upper (to_lower c) = to_upper c.
Proof. all_code_units c. Qed.

Lemma AZ_not_az c : is_AZ c = true -> is_az c = false.
Proof. all_code_units c. Qed.

Lemma AZ_not_sep c : is_AZ c = true -> is_sep c = false.
Proof. all_code_units c. Qed.

Lemma AZ_to_upper c : is_AZ c = true -> to_upper c = c.
Proof. all_code_units c. Qed.

Lemma ascii_to_lower c :
  is_ascii c = true -> is_AZ c = false -> to_lower c = c.
Proof. all_code_units c. Qed.

Lemma ascii_to_lower_stays c : is_ascii c = true -> is_ascii (to_lower c) = true.
Proof. all_code_units c. Qed.

Lemma ascii_to_upper_stays c : is_ascii c = true -> is_ascii (to_upper c) = true.
Proof. all_code_units c. Qed.

Lemma ascii_lower_of_upper c :
  is_ascii c = true -> is_AZ (to_upper c) = false -> to_lower (to_upper c) = to_upper c.
Proof. all_code_units c. Qed.

(** ** Strings *)

Lemma append_nil_r (s : string) : s ++ "" = s.
Proof. induction s as [|c s IH]; simpl; [reflexivity | now rewrite IH]. Qed.

Lemma append_assoc (a b c : string) : (a ++ b) ++ c = a ++ (b ++ c).
Proof. induction a as [|x a IH]; simpl; [reflexivity | now rewrite IH]. Qed.

Lemma append_snoc (a : string) (c : ascii) (b : string) :
  (a ++ String c "") ++ b = a ++ String c b.
Proof. now rewrite append_assoc. Qed.

Lemma is_empty_snoc (a : string) (c : ascii) :
  is_empty (a ++ String c "") = false.
Proof. destruct a; reflexivity. Qed.

Lemma join_cons (w : string) (ws : list string) : join (w :: ws) = w ++ join ws.
Proof.
  unfold join. destruct ws as [|w' ws]; simpl.
  - now rewrite append_nil_r.
  - reflexivity.
Qed.

Lemma join_app (l1 l2 : list string) : join (l1 ++ l2) = join l1 ++ join l2.
Proof.
  induction l1 as [|w l1 IH].
  - reflexivity.
  - change ((w :: l1) ++ l2)%list with (w :: (l1 ++ l2))%list.
    now rewrite !join_cons, IH, append_assoc.
Qed.

Lemma toLowerCase_app (a b : string) :
  toLowerCase (a ++ b) = toLowerCase a ++ toLowerCase b.
Proof. induction a as [|c a IH]; simpl; [reflexivity | now rewrite IH]. Qed.

Lemma toLowerCase_idem (s : string) : toLowerCase (toLowerCase s) = toLowerCase s.
Proof.
  induction s as [|c s IH]; simpl; [reflexivity|].
  now rewrite to_lower_idem, IH.
Qed.

Lemma capitalize_snoc (cur : string) (c : ascii) :
  capitalize (cur ++ String c "") =
  if is_empty cur then String (to_upper c) ""
  else capitalize cur ++ String (to_lower c) "".
Proof.
  destruct cur as [|x cur]; [reflexivity|].
  unfold capitalize; simpl. now rewrite toLowerCase_app.
Qed.

(** ** [_toPascalCase] is the one-pass scan *)

Lemma slice_length (n : nat) (s : string) :
  String.length (slice n s) <= String.length s.
Proof.
  revert s; induction n as [|n IH]; intros [|c s]; simpl; auto.
Qed.

Lemma slice_run_shorter (c : ascii) (tl : string) (n : nat) :
  String.length (slice (S n) (String c tl)) <= String.length tl.
Proof. cbn [slice]. apply slice_length. Qed.

(** The rounds [split] allows are enough: with at least
    [2 * length rest + 1] rounds (one more when a piece is open) the pieces
    do not depend on the number of rounds, so the branch that has run out
    of rounds is never the one that answers. *)
Lemma split_loop_enough (fuel : nat) :
  forall fuel' cur rest,
    2 * String.length rest + (if is_empty cur then 1 else 2) <= fuel ->
    2 * String.length rest + (if is_empty cur then 1 else 2) <= fuel' ->
    Split.split_loop fuel cur rest = Split.split_loop fuel' cur rest.
Proof.
  induction fuel as [|fuel IH]; intros [|fuel'] cur rest H H';
    try (destruct (is_empty cur); lia).
  destruct rest as [|c tl]; [reflexivity|].
  cbn [Split.split_loop]. cbn [String.length] in H, H'.
  destruct (Split.regex_match (String c tl)) as [n|] eqn:Hm.
  - destruct ((n =? 0)%nat && is_empty cur) eqn:Hskip.
    + apply IH; rewrite is_empty_snoc; destruct (is_empty cur); lia.
    + f_equal. destruct n as [|n].
      * cbn [Nat.eqb andb] in Hskip. rewrite Hskip in H, H'.
        apply IH; cbn [slice is_empty String.length]; lia.
      * pose proof (slice_run_shorter c tl n).
        apply IH; cbn [is_empty]; destruct (is_empty cur); lia.
  - apply IH; rewrite is_empty_snoc; destruct (is_empty cur); lia.
Qed.

Lemma scan_after_run (s : string) :
  pascal_scan true (slice (Split.sep_run s) s) = pascal_scan true s.
Proof.
  induction s as [|c s IH]; simpl; [reflexivity|].
  destruct (is_sep c) eqn:Hsep; simpl; [exact IH | now rewrite Hsep].
Qed.

Lemma split_loop_scan (fuel : nat) :
  forall cur rest,
    2 * String.length rest + (if is_empty cur then 1 else 2) <= fuel ->
    join (map capitalize (Split.split_loop fuel cur rest)) =
    capitalize cur ++ pascal_scan (is_empty cur) rest.
Proof.
  induction fuel as [|fuel IH]; intros cur rest Hfuel.
  - destruct (is_empty cur); lia.
  - destruct rest as [|c tl].
    + simpl. unfold join; simpl. now rewrite append_nil_r.
    + cbn [Split.split_loop]. unfold Split.regex_match.
      cbn [Split.sep_run pascal_scan]. cbn [String.length] in Hfuel.
      destruct (is_sep c) eqn:Hsep.
      * cbn [Nat.eqb andb map slice]. rewrite join_cons, IH.
        -- simpl. now rewrite scan_after_run.
        -- pose proof (slice_length (Split.sep_run tl) tl).
           simpl. destruct (is_empty cur); lia.
      * destruct (is_AZ c) eqn:HAZ.
        -- cbn [Nat.eqb andb]. destruct (is_empty cur) eqn:Hcur.
           ++ rewrite IH by (rewrite is_empty_snoc; lia).
              rewrite capitalize_snoc, Hcur, is_empty_snoc.
              destruct cur; [|discriminate]. reflexivity.
           ++ cbn [map slice]. rewrite join_cons, IH by (simpl; lia).
              simpl. now rewrite Hsep.
        -- rewrite IH by (rewrite is_empty_snoc; destruct (is_empty cur); lia).
           rewrite capitalize_snoc, is_empty_snoc.
           destruct (is_empty cur) eqn:Hcur.
           ++ destruct cur; [|discriminate]. reflexivity.
           ++ simpl. now rewrite append_assoc.
Qed.

Lemma toPascalCase_scan (s : string) : _toPascalCase s = pascal_scan true s.
Proof.
  unfold _toPascalCase, Split.split.
  rewrite split_loop_scan by (simpl; lia). reflexivity.
Qed.

Lemma scan_of_scan (s : string) :
  all_ascii s = true ->
  forall b b2, (b2 = true -> b = true) ->
    pascal_scan b2 (pascal_scan b s) = pascal_scan b s.
Proof.
  induction s as [|c s IH]; intros Hs b b2 Hb; [reflexivity|].
  cbn [all_ascii] in Hs. apply andb_true_iff in Hs as [Hc Hs].
  cbn [pascal_scan]. destruct (is_sep c) eqn:Hsep.
  - apply IH; auto.
  - destruct (b || is_AZ c) eqn:Hup; cbn [pascal_scan].
    + rewrite to_upper_sep, Hsep.
      destruct (b2 || is_AZ (to_upper c)) eqn:Hup2.
      * rewrite to_upper_idem. f_equal. apply IH; auto.
      * apply orb_false_iff in Hup2 as [_ Hup2].
        rewrite ascii_lower_of_upper by assumption.
        f_equal. apply IH; auto.
    + apply orb_false_iff in Hup as [Hbf HAZ]. subst b.
      destruct b2; [now specialize (Hb eq_refl)|].
      rewrite to_lower_sep, Hsep, to_lower_not_AZ. cbn [orb].
      rewrite to_lower_idem. f_equal. apply IH; auto.
Qed.

Lemma scan_all_sep (s : string) :
  all_sep s = true -> forall b, pascal_scan b s = "".
Proof.
  induction s as [|c s IH]; intros Hs b; [reflexivity|].
  cbn [all_sep] in Hs. apply andb_true_iff in Hs as [Hc Hs].
  cbn [pascal_scan]. rewrite Hc. now apply IH.
Qed.

Lemma scan_app_sep (c : ascii) (s' : string) :
  is_sep c = true ->
  forall x b, pascal_scan b (x ++ String c s') = pascal_scan b x ++ pascal_scan true s'.
Proof.
  intros Hc x. induction x as [|d x IH]; intros b; simpl.
  - now rewrite Hc.
  - destruct (is_sep d); [apply IH|].
    destruct (b || is_AZ d); simpl; now rewrite IH.
Qed.

Lemma no_sep_snoc (cur : string) (c : ascii) :
  no_sep cur = true -> is_sep c = false -> no_sep (cur ++ String c "") = true.
Proof.
  intros Hcur Hc. induction cur as [|d cur IH]; simpl in *.
  - now rewrite Hc.
  - apply andb_true_iff in Hcur as [Hd Hcur]. rewrite Hd. now apply IH.
Qed.

(** ** The worded PascalCase conversion is the same scan *)

Lemma join_kept_cons (w : string) (ws : list string) :
  join (map capitalize (kept (w :: ws))) =
  capitalize w ++ join (map capitalize (kept ws)).
Proof.
  unfold kept; simpl. destruct w as [|c w]; simpl.
  - reflexivity.
  - now rewrite join_cons.
Qed.

Lemma pieces_scan (s : string) :
  no_sep s = true ->
  forall cur,
    join (map capitalize (kept (Described.pieces is_AZ cur s))) =
    capitalize cur ++ pascal_scan (is_empty cur) s.
Proof.
  induction s as [|c s IH]; intros Hs cur.
  - cbn [Described.pieces]. rewrite join_kept_cons. reflexivity.
  - cbn [no_sep] in Hs. apply andb_true_iff in Hs as [Hc Hs].
    apply negb_true_iff in Hc.
    cbn [Described.pieces pascal_scan]. rewrite Hc.
    destruct (is_AZ c) eqn:HAZ.
    + rewrite join_kept_cons, IH by assumption.
      rewrite orb_true_r. reflexivity.
    + rewrite IH by assumption.
      rewrite capitalize_snoc, is_empty_snoc, orb_false_r.
      destruct cur as [|d cur]; [reflexivity|].
      cbn [is_empty orb]. now rewrite append_assoc.
Qed.

Lemma kept_app (l1 l2 : list string) : kept (l1 ++ l2) = (kept l1 ++ kept l2)%list.
Proof. apply filter_app. Qed.

Lemma fields_scan (s : string) :
  forall cur, no_sep cur = true ->
    join (map capitalize (kept (flat_map (Described.pieces is_AZ "") (Described.fields cur s)))) =
    pascal_scan true (cur ++ s).
Proof.
  induction s as [|c s IH]; intros cur Hcur.
  - cbn [Described.fields flat_map]. rewrite app_nil_r, append_nil_r.
    now rewrite pieces_scan.
  - cbn [Described.fields]. destruct (is_sep c) eqn:Hc.
    + cbn [flat_map]. rewrite kept_app, map_app, join_app.
      rewrite pieces_scan, IH by auto.
      now rewrite scan_app_sep.
    + rewrite IH by now apply no_sep_snoc.
      now rewrite append_snoc.
Qed.

Lemma described_pascal_scan (s : string) :
  DescribedAZ.toPascalCase s = pascal_scan true s.
Proof.
  unfold DescribedAZ.toPascalCase, Described.toPascalCase_with, Described.words.
  change (join (map capitalize (kept (flat_map (Described.pieces is_AZ "") (Described.fields "" s))))
          = pascal_scan true ("" ++ s)).
  now apply fields_scan.
Qed.

(** ** The hyphenation of [_toKebabCase] *)

Lemma string_pair_ind (P : string -> Prop) :
  P "" ->
  (forall c, P (String c "")) ->
  (forall c1 c2 s, P s -> P (String c2 s) -> P (String c1 (String c2 s))) ->
  forall s, P s.
Proof.
  intros H0 H1 H2 s.
  assert (H : P s /\ forall c, P (String c s)).
  { induction s as [|c s [IHs IHc]]; split; auto. }
  exact (proj1 H).
Qed.

Lemma replace_hyphenate (s : string) :
  replace_lower_upper s = Described.hyphenate is_az is_AZ s.
Proof.
  induction s as [|c|c1 c2 s IH1 IH2] using string_pair_ind; try reflexivity.
  cbn [replace_lower_upper Described.hyphenate] in *.
  destruct (is_az c1 && is_AZ c2) eqn:Hm.
  - apply andb_true_iff in Hm as [_ HAZ]. apply AZ_not_az in HAZ.
    rewrite HAZ. cbn [andb]. rewrite IH1.
    destruct s; reflexivity.
  - now rewrite <- IH2.
Qed.

Lemma replace_lowered (x : string) :
  replace_lower_upper (toLowerCase x) = toLowerCase x.
Proof.
  induction x as [|c|c1 c2 x IH1 IH2] using string_pair_ind; try reflexivity.
  cbn [toLowerCase replace_lower_upper] in *.
  now rewrite to_lower_not_AZ, andb_false_r, IH2.
Qed.

Lemma replace_over_boundary (c : ascii) (s2 : string) :
  is_az c = false -> is_AZ c = false ->
  forall s1,
    replace_lower_upper (s1 ++ String c s2) =
    replace_lower_upper s1 ++ String c (replace_lower_upper s2).
Proof.
  intros Haz HAZ.
  assert (H0 : replace_lower_upper (String c s2) = String c (replace_lower_upper s2)).
  { destruct s2 as [|d s2]; [reflexivity|].
    cbn [replace_lower_upper]. now rewrite Haz. }
  induction s1 as [|d|d1 d2 s1 IH1 IH2] using string_pair_ind.
  - exact H0.
  - change (String d "" ++ String c s2) with (String d (String c s2)).
    cbn [replace_lower_upper append] in *.
    rewrite HAZ, andb_false_r. now rewrite H0.
  - change (String d1 (String d2 s1) ++ String c s2)
      with (String d1 (String d2 (s1 ++ String c s2))).
    change (String d2 s1 ++ String c s2)
      with (String d2 (s1 ++ String c s2)) in IH2.
    cbn [replace_lower_upper] in *.
    destruct (is_az d1 && is_AZ d2).
    + now rewrite IH1.
    + cbn [append]. now rewrite IH2.
Qed.

Lemma kebab_over_boundary (c : ascii) :
  is_az c = false -> is_AZ c = false -> to_lower c = c ->
  forall s1 s2,
    _toKebabCase (s1 ++ String c s2) =
    _toKebabCase s1 ++ String c (_toKebabCase s2).
Proof.
  intros Haz HAZ Hlow s1 s2. unfold _toKebabCase.
  rewrite replace_over_boundary, toLowerCase_app by assumption.
  cbn [toLowerCase]. now rewrite Hlow.
Qed.

(** * The claims *)

(** ** The case converters *)

(** C6, as the code has it: on strings of seven-bit code units
    [_toPascalCase] is idempotent.  (The pieces are cut before [A-Z] only,
    while [toUpperCase] also raises letters outside that class.) *)
Theorem toPascalCase_idempotent_on_ascii (s : string) :
  all_ascii s = true ->
  _toPascalCase (_toPascalCase s) = _toPascalCase s.
Proof.
  intros Hs. rewrite !toPascalCase_scan. now apply scan_of_scan.
Qed.

Lemma toPascalCase_idempotent_on_ascii_witness :
  all_ascii "order_totalAmount" = true /\
  _toPascalCase (_toPascalCase "order_totalAmount") = _toPascalCase "order_totalAmount".
Proof.
  split; [reflexivity|].
  apply (toPascalCase_idempotent_on_ascii "order_totalAmount"). reflexivity.
Defined.

(** C6 as stated fails at the string [a], [_], U+00E9: the first pass gives
    [A], U+00C9, and the second, which finds no capital of [A-Z] to cut
    before, lowers U+00C9 back to U+00E9. *)
Lemma toPascalCase_not_idempotent_at_eacute :
  _toPascalCase a_underscore_eacute = String "A" (String "201" "") /\
  _toPascalCase (_toPascalCase a_underscore_eacute) = String "A" (String "233" "") /\
  _toPascalCase (_toPascalCase a_underscore_eacute) <> _toPascalCase a_underscore_eacute.
Proof.
  repeat split; try reflexivity. vm_compute. discriminate.
Qed.

(** C7, as the code has it: [_toPascalCase] cuts its input at runs of
    underscore, hyphen and white space and before every capital of [A-Z]
    (no other uppercase letter starts a word), drops the empty words, raises
    the first code unit of each word, lowers the others and concatenates;
    the three examples give ["UserProfile"], and the empty string and the
    strings of separators give the empty string. *)
Theorem toPascalCase_cuts_before_AZ :
  (forall s, _toPascalCase s = DescribedAZ.toPascalCase s) /\
  _toPascalCase "user_profile" = "UserProfile" /\
  _toPascalCase "user-profile" = "UserProfile" /\
  _toPascalCase "userProfile" = "UserProfile" /\
  _toPascalCase "" = "" /\
  (forall s, all_sep s = true -> _toPascalCase s = "").
Proof.
  repeat split; try reflexivity.
  - intros s. now rewrite toPascalCase_scan, described_pascal_scan.
  - intros s Hs. rewrite toPascalCase_scan. now apply scan_all_sep.
Qed.

Lemma toPascalCase_cuts_before_AZ_witness :
  all_sep "_- -__" = true /\ _toPascalCase "_- -__" = "".
Proof.
  split; [reflexivity|].
  apply (proj2 (proj2 (proj2 (proj2 (proj2 toPascalCase_cuts_before_AZ))))).
  reflexivity.
Defined.

(** C7 as stated fails at the string [x], U+00C9, [y]: U+00C9 is an
    uppercase letter, and cutting before it gives the words [x] and
    U+00C9 [y], hence [X], U+00C9, [y]; the code finds one word and gives
    [X], U+00E9, [y]. *)
Lemma toPascalCase_not_before_every_uppercase :
  Described.is_uppercase "201" = true /\
  Described.toPascalCase x_Eacute_y = String "X" (String "201" "y") /\
  _toPascalCase x_Eacute_y = String "X" (String "233" "y") /\
  _toPascalCase x_Eacute_y <> Described.toPascalCase x_Eacute_y.
Proof.
  repeat split; try reflexivity. vm_compute. discriminate.
Qed.

(** C8, as the code has it: [_toKebabCase] puts a hyphen between every
    small letter of [a-z] and the capital of [A-Z] that follows it (no
    other pair of letters gets one) and lowers the whole string; an
    underscore or a space is not a boundary: it is kept and the parts on
    its two sides are converted on their own. *)
Theorem toKebabCase_hyphenates_az_AZ :
  (forall s, _toKebabCase s = DescribedAZ.toKebabCase s) /\
  (forall s1 s2,
      _toKebabCase (s1 ++ "_" ++ s2) = _toKebabCase s1 ++ "_" ++ _toKebabCase s2) /\
  (forall s1 s2,
      _toKebabCase (s1 ++ " " ++ s2) = _toKebabCase s1 ++ " " ++ _toKebabCase s2) /\
  _toKebabCase "user_profile" = "user_profile" /\
  _toKebabCase "user profile" = "user profile" /\
  _toKebabCase "UserProfile" = "user-profile" /\
  _toKebabCase "already-kebab" = "already-kebab".
Proof.
  repeat split; try reflexivity.
  - intros s. unfold _toKebabCase, DescribedAZ.toKebabCase, Described.toKebabCase_with.
    now rewrite replace_hyphenate.
  - intros s1 s2. now apply (kebab_over_boundary "_").
  - intros s1 s2. now apply (kebab_over_boundary " ").
Qed.

(** C8 as stated fails at the string [a], U+00C9 and at the string U+00E9,
    [Cole]: each holds a lowercase letter followed by an uppercase one, so
    a hyphen belongs between them; the code inserts none and gives [a],
    U+00E9 and U+00E9, [cole]. *)
Lemma toKebabCase_not_every_letter_pair :
  Described.toKebabCase a_Eacute = String "a" (String "-" (String "233" "")) /\
  _toKebabCase a_Eacute = String "a" (String "233" "") /\
  Described.toKebabCase eacute_Cole = String "233" "-cole" /\
  _toKebabCase eacute_Cole = String "233" "cole" /\
  _toKebabCase a_Eacute <> Described.toKebabCase a_Eacute /\
  _toKebabCase eacute_Cole <> Described.toKebabCase eacute_Cole.
Proof.
  repeat split; try reflexivity; vm_compute; discriminate.
Qed.

(** C10: [_toKebabCase] is idempotent: its result holds no capital of
    [A-Z], so a second pass inserts nothing and lowers nothing. *)
Theorem toKebabCase_idempotent (s : string) :
  _toKebabCase (_toKebabCase s) = _toKebabCase s.
Proof.
  unfold _toKebabCase. now rewrite replace_lowered, toLowerCase_idem.
Qed.

(** ** The pipeline *)

Ltac unfold_methods :=
  unfold run_log, run_result, run, run_loop, initializing, prompting, validate,
    writing, mkdir_callback, end_, prompt, env_error, bind, ret, throw, emit,
    get_this, set_this, constructor, nth_arg, _schematicValidation, includes.

Ltac run_cases :=
  repeat match goal with
    | |- context [match ?x with _ => _ end] =>
        match type of x with
        | option _ => destruct x eqn:?
        | bool => destruct x eqn:?
        | string => is_var x; destruct x
        end;
        cbn -[append _toPascalCase _toKebabCase toLowerCase existsb]
    end.





(** C2: for the schematic ["usecase"], the name ["OrderTotal"] and the
    kebab-case pattern the folder name is ["order-total"], the folder is
    [src/order-total], the file is [src/order-total/order-total.usecase.ts]
    and the template is given the class name ["OrderTotal"]; this is so when
    the two values come from the command line and when they are answers to
    the prompts. *)
Theorem usecase_OrderTotal_kebab (a1 a2 : string) (e : option bool) :
  scaffold_name (Some KEBAB_CASE) "OrderTotal" = "order-total" /\
  run {| config_file := Some {| scaffoldPattern := Some KEBAB_CASE |};
         answer_schematic := a1; answer_name := a2; mkdir_error := None |}
      {| cli_args := ["usecase"; "OrderTotal"]; cli_spec := e |} =
  (Returned tt,
   {| this :=
        {| options := options (constructor {| cli_args := ["usecase"; "OrderTotal"];
                                              cli_spec := e |});
           answers := {| schematic := Some "usecase"; name := Some "OrderTotal" |};
           expressoConfig := {| scaffoldPattern := Some KEBAB_CASE |} |};
      log := [Mkdir "src/order-total";
              CopyTpl "usecase.tpl" "src/order-total/order-total.usecase.ts"
                "OrderTotal"] |}) /\
  run_log {| config_file := Some {| scaffoldPattern := Some KEBAB_CASE |};
             answer_schematic := "usecase"; answer_name := "OrderTotal";
             mkdir_error := None |}
          {| cli_args := []; cli_spec := e |} =
  [Prompt "list" "schematic" "What do you want to generate?";
   Prompt "input" "name" "What is the name of the usecase?";
   Mkdir "src/order-total";
   CopyTpl "usecase.tpl" "src/order-total/order-total.usecase.ts" "OrderTotal"].
Proof.
  repeat split.
Qed.

(** C3, as the code has it: [initializing] copies the [config] export as it
    is and supplies no default, so a configuration without a pattern leaves
    [scaffoldPattern] undefined; no branch of the [switch] of [writing] is
    taken and the folder name is the raw name. *)
Theorem no_pattern_keeps_raw_name :
  (forall w c s,
      config_file w = Some c ->
      initializing w s =
      (Returned tt,
       {| this := {| options := options (this s);
                     answers := answers (this s);
                     expressoConfig := {| scaffoldPattern := scaffoldPattern c |} |};
          log := log s |})) /\
  (forall raw, scaffold_name None raw = raw) /\
  (forall kind raw,
      In kind schematic_kinds -> raw <> "" ->
      run_result (project None) (command [kind; raw]) = Returned tt /\
      scaffoldPattern (expressoConfig (this (snd (run (project None) (command [kind; raw])))))
      = None /\
      folders_made (run_log (project None) (command [kind; raw])) = ["src/" ++ raw]).
Proof.
  split; [|split; [reflexivity|]].
  - intros w c s Hc. unfold initializing, bind, get_this, set_this, ret, env_error.
    rewrite Hc. reflexivity.
  - intros kind raw Hkind Hraw.
    destruct raw as [|c raw]; [congruence|].
    cbn [In schematic_kinds] in Hkind.
    destruct Hkind as [<-|[<-|[<-|[<-|[]]]]]; repeat split.
Qed.

Lemma no_pattern_keeps_raw_name_witness :
  folders_made (run_log (project None) (command ["dto"; "OrderTotal"])) =
  ["src/OrderTotal"].
Proof.
  refine (proj2 (proj2 (proj2 (proj2 no_pattern_keeps_raw_name)
                          "dto" "OrderTotal" _ _))).
  - simpl; auto.
  - discriminate.
Defined.

(** C3 as stated fails: with a configuration file that sets no pattern the
    loaded pattern is not kebab-case and the folder made for ["OrderTotal"]
    is [src/OrderTotal], not [src/order-total]. *)
Lemma no_pattern_is_not_kebab :
  scaffoldPattern
    (expressoConfig
       (this (snd (run (project None) (command ["usecase"; "OrderTotal"])))))
  <> Some KEBAB_CASE /\
  folders_made (run_log (project None) (command ["usecase"; "OrderTotal"])) =
  ["src/OrderTotal"] /\
  "src/OrderTotal" <> "src/" ++ _toKebabCase "OrderTotal".
Proof.
  repeat split; vm_compute; discriminate.
Qed.

(** C4: [validate] throws exactly when the schematic is none of the four
    kinds, and the error names the offending value; the list of kinds in the
    message leaves out [dto]. *)
Theorem validate_message_omits_dto :
  (forall s,
      validate s =
      if includes schematic_kinds (schematic (answers (this s)))
      then (Returned tt, s)
      else (Threw (unsupported_schematic (schematic (answers (this s)))), s)) /\
  (forall kind,
      includes schematic_kinds (Some kind) = true <-> In kind schematic_kinds) /\
  run_result (project (Some KEBAB_CASE)) (command ["widget"; "OrderTotal"]) =
  Threw (Error "The schematic widget is not supported. Please use one of the following: usecase, controller, service") /\
  run_log (project (Some KEBAB_CASE)) (command ["widget"; "OrderTotal"]) = [] /\
  (forall kind,
      str_includes "dto"
        match unsupported_schematic (Some "widget") with
        | Error m | TypeError m => m
        end = false /\
      (In kind ["usecase"; "controller"; "service"] ->
       str_includes kind
         match unsupported_schematic (Some "widget") with
         | Error m | TypeError m => m
         end = true)) /\
  includes schematic_kinds (Some "dto") = true.
Proof.
  split; [|split; [|repeat split; try reflexivity]].
  - intros s. unfold validate, bind, get_this, _schematicValidation, env_error, ret, throw.
    cbn [this]. destruct (includes _ _); reflexivity.
  - intros kind. cbn [includes schematic_kinds existsb In].
    rewrite !orb_true_iff, !String.eqb_eq.
    intuition (try congruence).
  - cbn [In]. intros [<-|[<-|[<-|[]]]]; reflexivity.
Qed.

(** C5: when the configuration file is missing the run ends in
    [initializing] with the error of the missing file, and its log is empty:
    no prompt has been put to the user. *)
Theorem config_missing_before_prompts (w : World) (cl : CommandLine) :
  config_file w = None ->
  run w cl = (Threw config_missing, {| this := constructor cl; log := [] |}) /\
  existsb is_prompt (run_log w cl) = false.
Proof.
  intros Hw. unfold run_log, run, run_loop, initializing, bind, env_error, throw.
  rewrite Hw. split; reflexivity.
Qed.

Lemma config_missing_before_prompts_witness :
  existsb is_prompt
    (run_log {| config_file := None; answer_schematic := "usecase";
                answer_name := "OrderTotal"; mkdir_error := None |}
             (command [])) = false.
Proof.
  exact (proj2 (config_missing_before_prompts
                  {| config_file := None; answer_schematic := "usecase";
                     answer_name := "OrderTotal"; mkdir_error := None |}
                  (command []) eq_refl)).
Defined.

(** C9: the [spec] option is true unless the command line says otherwise,
    and no method reads it: a run with [--spec] and a run with [--no-spec]
    have the same log and the same outcome, and the run for ["usecase"] and
    ["OrderTotal"] writes the one source file and nothing else. *)
Theorem spec_option_is_never_read :
  (forall args, opt_spec (options (constructor (command args))) = true) /\
  (forall w args,
      run_log w {| cli_args := args; cli_spec := Some true |} =
      run_log w {| cli_args := args; cli_spec := Some false |} /\
      run_result w {| cli_args := args; cli_spec := Some true |} =
      run_result w {| cli_args := args; cli_spec := Some false |}) /\
  files_written
    (run_log (project (Some KEBAB_CASE))
       {| cli_args := ["usecase"; "OrderTotal"]; cli_spec := Some true |}) =
  [("src/order-total/order-total.usecase.ts", "OrderTotal")].
Proof.
  split; [reflexivity|]. split; [|reflexivity].
  intros w args. unfold_methods.
  cbn -[append _toPascalCase _toKebabCase toLowerCase existsb nth_error].
  run_cases; split; reflexivity.
Qed.

(** * Further properties of the code *)

(** ** A run in a project that has a configuration file *)

Lemma run_with_config (w : World) (cl : CommandLine) (c : config) :
  config_file w = Some c ->
  let k := resolve (nth_arg 0 (cli_args cl)) (answer_schematic w) in
  let n := resolve (nth_arg 1 (cli_args cl)) (answer_name w) in
  let folder := scaffold_name (scaffoldPattern c) n in
  this (snd (run w cl)) =
    {| options := options (constructor cl);
       answers := {| schematic := Some k; name := Some n |};
       expressoConfig := {| scaffoldPattern := scaffoldPattern c |} |} /\
  run_result w cl =
    (if includes schematic_kinds (Some k)
     then match mkdir_error w with
          | None => Returned tt
          | Some err => Threw (Error err)
          end
     else Threw (unsupported_schematic (Some k))) /\
  run_log w cl =
    (prompts_of w cl ++
     if includes schematic_kinds (Some k)
     then Mkdir ("src/" ++ folder) ::
          match mkdir_error w with
          | None => [CopyTpl (k ++ ".tpl")
                       ("src/" ++ folder ++ "/" ++ folder ++ "." ++ k ++ ".ts")
                       (_toPascalCase folder)]
          | Some _ => []
          end
     else [])%list.
Proof.
  intros Hc k n folder. subst k n folder.
  unfold prompts_of, resolve.
  destruct w as [cf a1 a2 mk], cl as [args sp]. cbn [config_file] in Hc. subst cf.
  unfold_methods.
  cbn -[append _toPascalCase _toKebabCase toLowerCase existsb nth_error scaffold_name].
  destruct (nth_error args 0) as [[|x0 k0]|], (nth_error args 1) as [[|x1 n1]|];
    cbn -[append _toPascalCase _toKebabCase toLowerCase existsb scaffold_name];
    match goal with
    | |- context [existsb ?f ?l] => destruct (existsb f l)
    end;
    cbn -[append _toPascalCase _toKebabCase toLowerCase scaffold_name];
    destruct mk;
    cbn -[append _toPascalCase _toKebabCase toLowerCase scaffold_name];
    repeat split.
Qed.

Lemma run_without_config (w : World) (cl : CommandLine) :
  config_file w = None ->
  run w cl = (Threw config_missing, {| this := constructor cl; log := [] |}).
Proof.
  intros Hw. unfold run, run_loop, initializing, bind, env_error, throw.
  now rewrite Hw.
Qed.

Lemma includes_kinds (k : string) :
  includes schematic_kinds (Some k) = true <-> In k schematic_kinds.
Proof.
  cbn [includes]. rewrite existsb_exists. split.
  - intros [x [Hx Heq]]. apply String.eqb_eq in Heq. now subst.
  - intros Hk. exists k. split; [assumption | apply String.eqb_refl].
Qed.

Lemma includes_kinds_false (k : string) :
  includes schematic_kinds (Some k) = false <-> ~ In k schematic_kinds.
Proof.
  rewrite <- includes_kinds. destruct (includes _ _); split; congruence.
Qed.

Lemma prompts_are_prompts (w : World) (cl : CommandLine) :
  filter is_prompt (prompts_of w cl) = prompts_of w cl /\
  filter is_fs (prompts_of w cl) = [] /\
  folders_made (prompts_of w cl) = [] /\
  files_written (prompts_of w cl) = [].
Proof.
  unfold prompts_of.
  destruct (truthy (nth_arg 0 (cli_args cl))), (truthy (nth_arg 1 (cli_args cl)));
    repeat split.
Qed.

Lemma folders_made_app (l1 l2 : list event) :
  folders_made (l1 ++ l2) = (folders_made l1 ++ folders_made l2)%list.
Proof.
  induction l1 as [|[] l1 IH]; cbn [folders_made app]; [reflexivity| | |];
    now rewrite IH.
Qed.

Lemma files_written_app (l1 l2 : list event) :
  files_written (l1 ++ l2) = (files_written l1 ++ files_written l2)%list.
Proof.
  induction l1 as [|[] l1 IH]; cbn [files_written app]; [reflexivity| | |];
    now rewrite IH.
Qed.

(** the part of the log of a run that follows the prompts *)
Ltac after_prompts w cl :=
  rewrite ?filter_app, ?folders_made_app, ?files_written_app;
  let P1 := fresh in let P2 := fresh in let P3 := fresh in let P4 := fresh in
  destruct (prompts_are_prompts w cl) as (P1 & P2 & P3 & P4);
  rewrite ?P1, ?P2, ?P3, ?P4; clear P1 P2 P3 P4.



(** X2: whenever [prompting] returns, both answers are defined: each is
    the argument when that is a string that is not empty, and what the user
    answered otherwise; the options and the configuration are as before. *)
Theorem prompting_defines_both_answers (w : World) (s s' : state) :
  prompting w s = (Returned tt, s') ->
  answers (this s') =
    {| schematic := Some (resolve (opt_schematic (options (this s))) (answer_schematic w));
       name := Some (resolve (opt_name (options (this s))) (answer_name w)) |} /\
  options (this s') = options (this s) /\
  expressoConfig (this s') = expressoConfig (this s).
Proof.
  destruct s as [[[o1 o2 o3] a cfg] l].
  unfold prompting, prompt, bind, ret, emit, get_this, set_this, resolve.
  cbn [this log options answers expressoConfig opt_schematic opt_name].
  destruct o1 as [[|x1 k1]|], o2 as [[|x2 n2]|];
    cbn [truthy is_empty negb interpolate nullish this log options answers
         expressoConfig opt_schematic opt_name schematic name];
    intros H; injection H as <-; repeat split.
Qed.

Lemma prompting_defines_both_answers_witness :
  answers (this (snd (prompting (project None)
                        {| this := constructor (command [""; "Order"]); log := [] |}))) =
  {| schematic := Some "usecase"; name := Some "Order" |}.
Proof.
  exact (proj1 (prompting_defines_both_answers (project None)
                  {| this := constructor (command [""; "Order"]); log := [] |}
                  _ eq_refl)).
Defined.

(** X3: a run calls [fs.copyTpl] at most once, and only when the schematic
    is one of the four kinds and [mkdir] reported no error; the calls on
    the file system are then the [mkdir] of the folder followed by the
    [copyTpl] whose target lies in that folder and is named after it and
    after the schematic, with [_toPascalCase] of the folder name as class
    name. *)
Theorem copyTpl_follows_its_mkdir (w : World) (cl : CommandLine) :
  files_written (run_log w cl) = [] \/
  exists c k n,
    config_file w = Some c /\
    mkdir_error w = None /\
    answers (this (snd (run w cl))) = {| schematic := Some k; name := Some n |} /\
    In k schematic_kinds /\
    let folder := scaffold_name (scaffoldPattern c) n in
    filter is_fs (run_log w cl) =
      [Mkdir ("src/" ++ folder);
       CopyTpl (k ++ ".tpl") ("src/" ++ folder ++ "/" ++ folder ++ "." ++ k ++ ".ts")
         (_toPascalCase folder)].
Proof.
  destruct (config_file w) as [c|] eqn:Hc.
  - destruct (run_with_config w cl c Hc) as (Hthis & _ & Hlog).
    rewrite Hlog, Hthis. after_prompts w cl.
    destruct (includes _ _) eqn:Hk; [destruct (mkdir_error w) eqn:Hmk|];
      try (left; reflexivity).
    right. eexists c, _, _. repeat split. now apply includes_kinds.
  - left. unfold run_log. now rewrite run_without_config.
Qed.

(** X4: when the schematic a run goes on with is none of the four kinds,
    the run ends in [validate] with the error that quotes it, and nothing
    has been done on the file system: no folder made, no file written. *)
Theorem unsupported_schematic_touches_nothing
    (w : World) (cl : CommandLine) (c : config) (k : string) :
  config_file w = Some c ->
  schematic (answers (this (snd (run w cl)))) = Some k ->
  ~ In k schematic_kinds ->
  run_result w cl = Threw (unsupported_schematic (Some k)) /\
  filter is_fs (run_log w cl) = [].
Proof.
  intros Hc Hk Hnot. destruct (run_with_config w cl c Hc) as (Hthis & Hres & Hlog).
  set (k0 := resolve (nth_arg 0 (cli_args cl)) (answer_schematic w)) in *.
  rewrite Hthis in Hk. cbn [answers schematic] in Hk. injection Hk as Hk. subst k.
  apply includes_kinds_false in Hnot. rewrite Hres, Hlog, Hnot.
  after_prompts w cl. split; reflexivity.
Qed.

Lemma unsupported_schematic_touches_nothing_witness :
  run_result (project (Some KEBAB_CASE)) (command ["module"; "Order"]) =
  Threw (unsupported_schematic (Some "module")) /\
  filter is_fs (run_log (project (Some KEBAB_CASE)) (command ["module"; "Order"])) = [].
Proof.
  apply (unsupported_schematic_touches_nothing
           (project (Some KEBAB_CASE)) (command ["module"; "Order"])
           {| scaffoldPattern := Some KEBAB_CASE |} "module" eq_refl eq_refl).
  cbn [In schematic_kinds]. intros [H|[H|[H|[H|[]]]]]; discriminate H.
Defined.



(** X6: an argument that is the empty string counts as a missing one: the
    run asks for the value and goes on with the answer. *)
Theorem empty_argument_is_missing (w : World) :
  (forall k,
      run_result w (command [k; ""]) = run_result w (command [k]) /\
      run_log w (command [k; ""]) = run_log w (command [k])) /\
  run_result w (command [""; ""]) = run_result w (command []) /\
  run_log w (command [""; ""]) = run_log w (command []).
Proof.
  destruct (config_file w) as [c|] eqn:Hc.
  - split; [intros k; split | split].
    all: match goal with
         | |- _ ?w ?a = _ ?w ?b =>
             destruct (run_with_config w a c Hc) as (_ & Hra & Hla);
             destruct (run_with_config w b c Hc) as (_ & Hrb & Hlb);
             rewrite ?Hra, ?Hrb, ?Hla, ?Hlb
         end; reflexivity.
  - unfold run_result, run_log.
    split; [intros k|]; rewrite !run_without_config by assumption; repeat split.
Qed.

Lemma single_letter_not_a_kind (x : ascii) :
  includes schematic_kinds (Some (String x "")) = false.
Proof.
  cbn [includes schematic_kinds existsb String.eqb].
  destruct (Ascii.eqb x "u"), (Ascii.eqb x "c"), (Ascii.eqb x "d"), (Ascii.eqb x "s");
    reflexivity.
Qed.

(** X7: [validate] compares the schematic with the four full names only: a
    schematic of one letter, as in [yo g u <name>], is refused and nothing
    is done on the file system. *)
Theorem one_letter_schematic_is_refused
    (w : World) (c : config) (x : ascii) (raw : string) :
  config_file w = Some c ->
  run_result w (command [String x ""; raw]) =
    Threw (unsupported_schematic (Some (String x ""))) /\
  filter is_fs (run_log w (command [String x ""; raw])) = [].
Proof.
  intros Hc.
  destruct (run_with_config w (command [String x ""; raw]) c Hc) as (_ & Hres & Hlog).
  rewrite Hres, Hlog. after_prompts w (command [String x ""; raw]).
  change (resolve (nth_arg 0 (cli_args (command [String x ""; raw]))) (answer_schematic w))
    with (String x "").
  rewrite single_letter_not_a_kind. split; reflexivity.
Qed.

Lemma one_letter_schematic_is_refused_witness :
  run_result (project (Some KEBAB_CASE)) (command ["u"; "OrderTotal"]) =
    Threw (unsupported_schematic (Some "u")) /\
  filter is_fs (run_log (project (Some KEBAB_CASE)) (command ["u"; "OrderTotal"])) = [].
Proof.
  exact (one_letter_schematic_is_refused (project (Some KEBAB_CASE))
           {| scaffoldPattern := Some KEBAB_CASE |} "u" "OrderTotal" eq_refl).
Defined.

(** X8: in a project whose configuration file sets no pattern the later
    version of the generator does what the first version does: the two runs
    have the same outcome, the same log and the same answers. *)
Theorem first_version_is_the_run_without_pattern (w : World) (cl : CommandLine) :
  config_file w = Some {| scaffoldPattern := None |} ->
  fst (Legacy.run w cl) = run_result w cl /\
  log (snd (Legacy.run w cl)) = run_log w cl /\
  answers (this (snd (Legacy.run w cl))) = answers (this (snd (run w cl))).
Proof.
  intros Hc. destruct w as [cf a1 a2 mk], cl as [args sp].
  cbn [config_file] in Hc. subst cf.
  unfold Legacy.run, Legacy.run_loop, Legacy.initializing, Legacy.writing,
    Legacy._pascalCase.
  unfold_methods. unfold _toPascalCase.
  cbn -[append join Split.split existsb nth_error].
  destruct (nth_error args 0) as [[|x0 k0]|], (nth_error args 1) as [[|x1 n1]|];
    cbn -[append join Split.split existsb];
    match goal with
    | |- context [existsb ?f ?l] => destruct (existsb f l)
    end;
    cbn -[append join Split.split];
    destruct mk; repeat split.
Qed.

Lemma first_version_is_the_run_without_pattern_witness :
  fst (Legacy.run (project None) (command ["usecase"])) =
    run_result (project None) (command ["usecase"]) /\
  log (snd (Legacy.run (project None) (command ["usecase"]))) =
    run_log (project None) (command ["usecase"]) /\
  answers (this (snd (Legacy.run (project None) (command ["usecase"])))) =
    answers (this (snd (run (project None) (command ["usecase"])))).
Proof.
  exact (first_version_is_the_run_without_pattern (project None)
           (command ["usecase"]) eq_refl).
Defined.

(** ** The split and the two converters *)

Lemma sep_not_AZ c : is_sep c = true -> is_AZ c = false.
Proof. all_code_units c. Qed.

Lemma to_lower_upper c : to_lower (to_upper c) = to_lower c.
Proof. all_code_units c. Qed.

Lemma ascii_not_small_upper c :
  is_ascii c = true -> is_az c = false -> to_upper c = c.
Proof. all_code_units c. Qed.

Lemma upper_fixed_not_small c : to_upper c = c -> is_az c = false.
Proof. all_code_units c. Qed.

Lemma strip_after_run (s : string) :
  strip_sep (slice (Split.sep_run s) s) = strip_sep s.
Proof.
  induction s as [|c s IH]; simpl; [reflexivity|].
  destruct (is_sep c) eqn:Hsep; simpl; [exact IH | now rewrite Hsep].
Qed.

Lemma split_loop_join (fuel : nat) :
  forall cur rest,
    2 * String.length rest + (if is_empty cur then 1 else 2) <= fuel ->
    join (Split.split_loop fuel cur rest) = cur ++ strip_sep rest.
Proof.
  induction fuel as [|fuel IH]; intros cur rest Hfuel.
  - destruct (is_empty cur); lia.
  - destruct rest as [|c tl]; [cbn; now rewrite append_nil_r|].
    cbn [Split.split_loop]. unfold Split.regex_match.
    cbn [Split.sep_run strip_sep]. cbn [String.length] in Hfuel.
    destruct (is_sep c) eqn:Hsep.
    + cbn [Nat.eqb andb slice]. rewrite join_cons, IH.
      * simpl. now rewrite strip_after_run.
      * pose proof (slice_length (Split.sep_run tl) tl).
        simpl. destruct (is_empty cur); lia.
    + destruct (is_AZ c).
      * cbn [Nat.eqb andb]. destruct (is_empty cur) eqn:Hcur.
        -- rewrite IH by (rewrite is_empty_snoc; lia). apply append_snoc.
        -- cbn [slice]. rewrite join_cons, IH by (simpl; lia).
           simpl. now rewrite Hsep.
      * rewrite IH by (rewrite is_empty_snoc; destruct (is_empty cur); lia).
        apply append_snoc.
Qed.

Lemma no_AZ_snoc (s : string) (c : ascii) :
  no_AZ s = true -> is_AZ c = false -> no_AZ (s ++ String c "") = true.
Proof.
  intros Hs Hc. induction s as [|d s IH]; simpl in *.
  - now rewrite Hc.
  - apply andb_true_iff in Hs as [Hd Hs]. rewrite Hd. now apply IH.
Qed.

Lemma piece_ok_snoc (cur : string) (c : ascii) :
  piece_ok cur = true -> is_sep c = false ->
  (is_empty cur = false -> is_AZ c = false) ->
  piece_ok (cur ++ String c "") = true.
Proof.
  unfold piece_ok. intros Hcur Hsep HAZ.
  apply andb_true_iff in Hcur as [H1 H2].
  rewrite no_sep_snoc by assumption. cbn [andb].
  destruct cur as [|d cur]; [reflexivity|].
  cbn [append slice1] in *. apply no_AZ_snoc; auto.
Qed.

Lemma split_loop_pieces (fuel : nat) :
  forall cur rest,
    2 * String.length rest + (if is_empty cur then 1 else 2) <= fuel ->
    piece_ok cur = true ->
    forallb piece_ok (Split.split_loop fuel cur rest) = true.
Proof.
  induction fuel as [|fuel IH]; intros cur rest Hfuel Hcur.
  - destruct (is_empty cur); lia.
  - destruct rest as [|c tl]; [cbn; now rewrite Hcur|].
    cbn [Split.split_loop]. unfold Split.regex_match.
    cbn [Split.sep_run]. cbn [String.length] in Hfuel.
    destruct (is_sep c) eqn:Hsep.
    + cbn [Nat.eqb andb slice forallb]. rewrite Hcur. cbn [andb].
      apply IH; [|reflexivity].
      pose proof (slice_length (Split.sep_run tl) tl).
      simpl. destruct (is_empty cur); lia.
    + destruct (is_AZ c) eqn:HAZ.
      * cbn [Nat.eqb andb]. destruct (is_empty cur) eqn:Hempty.
        -- apply IH; [rewrite is_empty_snoc; lia|].
           apply piece_ok_snoc; auto. congruence.
        -- cbn [slice forallb]. rewrite Hcur. cbn [andb].
           apply IH; [simpl; lia | reflexivity].
      * apply IH; [rewrite is_empty_snoc; destruct (is_empty cur); lia|].
        apply piece_ok_snoc; auto.
Qed.

(** X9: [split] loses the separators and nothing else: its pieces, put
    together, are the input without the code units of [[_\-\s]]; no piece
    holds a separator, and a piece holds a capital of [[A-Z]] as its first
    code unit only. *)
Theorem split_loses_separators_only (s : string) :
  join (Split.split s) = strip_sep s /\
  forallb piece_ok (Split.split s) = true.
Proof.
  unfold Split.split. split.
  - now rewrite split_loop_join by (simpl; lia).
  - apply split_loop_pieces; [simpl; lia | reflexivity].
Qed.

Lemma scan_no_sep (s : string) : forall b, no_sep (pascal_scan b s) = true.
Proof.
  induction s as [|c s IH]; intros b; [reflexivity|].
  cbn [pascal_scan]. destruct (is_sep c) eqn:Hsep; [apply IH|].
  destruct (b || is_AZ c); cbn [no_sep];
    rewrite ?to_upper_sep, ?to_lower_sep, Hsep; apply IH.
Qed.

Lemma scan_lowered (s : string) :
  forall b, toLowerCase (pascal_scan b s) = toLowerCase (strip_sep s).
Proof.
  induction s as [|c s IH]; intros b; [reflexivity|].
  cbn [pascal_scan strip_sep]. destruct (is_sep c); [apply IH|].
  destruct (b || is_AZ c); cbn [toLowerCase];
    rewrite ?to_lower_upper, ?to_lower_idem, IH; reflexivity.
Qed.

(** X10: the class name never holds an underscore, a hyphen or white space,
    and for a name of seven-bit code units it is, letter case apart, the
    name without its separators. *)
Theorem toPascalCase_drops_separators (s : string) :
  no_sep (_toPascalCase s) = true /\
  (all_ascii s = true ->
   toLowerCase (_toPascalCase s) = toLowerCase (strip_sep s)).
Proof.
  rewrite toPascalCase_scan. split; [apply scan_no_sep | intros _; apply scan_lowered].
Qed.

Lemma toPascalCase_drops_separators_witness :
  toLowerCase (_toPascalCase "order_total-amount v2") = "ordertotalamountv2".
Proof.
  exact (proj2 (toPascalCase_drops_separators "order_total-amount v2") eq_refl).
Defined.

Lemma scan_fixed (s : string) :
  all_ascii s = true -> no_sep s = true ->
  forall b, (b = true -> head_not_small s = true) -> pascal_scan b s = s.
Proof.
  induction s as [|c s IH]; intros Ha Hs b Hb; [reflexivity|].
  cbn [all_ascii no_sep] in Ha, Hs.
  apply andb_true_iff in Ha as [Hc Ha]. apply andb_true_iff in Hs as [Hsep Hs].
  apply negb_true_iff in Hsep. cbn [pascal_scan]. rewrite Hsep.
  rewrite (IH Ha Hs false) by discriminate.
  destruct (is_AZ c) eqn:HAZ.
  - rewrite orb_true_r. now rewrite AZ_to_upper.
  - rewrite orb_false_r. destruct b.
    + specialize (Hb eq_refl). cbn [head_not_small] in Hb.
      apply negb_true_iff in Hb. now rewrite ascii_not_small_upper.
    + now rewrite ascii_to_lower.
Qed.

(** X11: the names of seven-bit code units that [_toPascalCase] leaves as
    they are are exactly those that hold no separator and do not start with
    a small letter of [[a-z]]. *)
Theorem toPascalCase_fixed_points (s : string) :
  all_ascii s = true ->
  (_toPascalCase s = s <-> no_sep s = true /\ head_not_small s = true).
Proof.
  intros Ha. rewrite toPascalCase_scan. split.
  - intros Hfix. assert (Hsep : no_sep s = true).
    { rewrite <- Hfix. apply scan_no_sep. }
    split; [assumption|].
    destruct s as [|c s]; [reflexivity|].
    cbn [no_sep] in Hsep. apply andb_true_iff in Hsep as [Hc _].
    apply negb_true_iff in Hc. cbn [pascal_scan orb] in Hfix. rewrite Hc in Hfix.
    injection Hfix as Hup _. cbn [head_not_small].
    now rewrite upper_fixed_not_small.
  - intros [Hsep Hhead]. now apply scan_fixed.
Qed.

Lemma toPascalCase_fixed_points_witness :
  _toPascalCase "HTTPServer2" = "HTTPServer2".
Proof.
  apply (proj2 (toPascalCase_fixed_points "HTTPServer2" eq_refl)).
  split; reflexivity.
Defined.

Lemma toLowerCase_no_AZ (s : string) : no_AZ (toLowerCase s) = true.
Proof.
  induction s as [|c s IH]; [reflexivity|].
  cbn [toLowerCase no_AZ]. now rewrite to_lower_not_AZ, IH.
Qed.

Lemma toLowerCase_length (s : string) :
  String.length (toLowerCase s) = String.length s.
Proof. induction s as [|c s IH]; simpl; [reflexivity | now rewrite IH]. Qed.

Lemma replace_length (s : string) :
  String.length s <= String.length (replace_lower_upper s).
Proof.
  induction s as [|c|c1 c2 s IH1 IH2] using string_pair_ind; [auto | auto |].
  cbn [replace_lower_upper] in *.
  destruct (is_az c1 && is_AZ c2); cbn [String.length] in *; lia.
Qed.

(** X12: the result of [_toKebabCase] holds no capital of [[A-Z]] and is
    not shorter than the input; the strings it leaves as they are are
    exactly those that [toLowerCase] leaves as they are. *)
Theorem toKebabCase_lowers (s : string) :
  no_AZ (_toKebabCase s) = true /\
  String.length s <= String.length (_toKebabCase s) /\
  (_toKebabCase s = s <-> toLowerCase s = s).
Proof.
  unfold _toKebabCase. split; [apply toLowerCase_no_AZ|]. split.
  - rewrite toLowerCase_length. apply replace_length.
  - split; intros H.
    + rewrite <- H at 1. now rewrite toLowerCase_idem.
    + rewrite <- H at 1. now rewrite replace_lowered, toLowerCase_idem.
Qed.

(** X13: the folder name is stable: for a name of seven-bit code units and
    any pattern, or none, normalising a folder name again gives the same
    folder name. *)
Theorem scaffold_name_idempotent (p : option Pattern) (raw : string) :
  all_ascii raw = true ->
  scaffold_name p (scaffold_name p raw) = scaffold_name p raw.
Proof.
  intros Ha. destruct p as [[]|]; cbn [scaffold_name].
  - apply toLowerCase_idem.
  - unfold _toKebabCase. now rewrite replace_lowered, toLowerCase_idem.
  - rewrite !toPascalCase_scan. now apply scan_of_scan.
  - destruct raw as [|c raw]; [reflexivity|].
    cbn [charAt0 slice1 toLowerCase append]. now rewrite to_lower_idem.
  - reflexivity.
Qed.

Lemma scaffold_name_idempotent_witness :
  scaffold_name (Some KEBAB_CASE) (scaffold_name (Some KEBAB_CASE) "orderTotal") =
  scaffold_name (Some KEBAB_CASE) "orderTotal".
Proof.
  exact (scaffold_name_idempotent (Some KEBAB_CASE) "orderTotal" eq_refl).
Defined.

Lemma hyphenate_cons (c : ascii) (r : string) :
  Described.hyphenate is_az is_AZ (String c r) = String c (hyphen_then (is_az c) r).
Proof. destruct r; reflexivity. Qed.

Lemma scan_of_kebab (s : string) :
  forall ok b p,
    capitals_after_small ok s = true -> ok = b || p ->
    pascal_scan b (toLowerCase (hyphen_then p s)) = pascal_scan b s.
Proof.
  induction s as [|c s IH]; intros ok b p Hs Hok; [reflexivity|].
  cbn [capitals_after_small] in Hs. unfold hyphen_then.
  rewrite hyphenate_cons. destruct (is_sep c) eqn:Hsep.
  - rewrite (sep_not_AZ c Hsep), andb_false_r.
    cbn [toLowerCase pascal_scan]. rewrite to_lower_sep, Hsep.
    now apply (IH true).
  - apply andb_true_iff in Hs as [Hc Hs]. destruct (is_AZ c) eqn:HAZ.
    + cbn iota in Hc. rewrite Hc in Hok. rewrite andb_true_r. destruct p.
      * cbn [toLowerCase pascal_scan]. change (is_sep (to_lower "-")) with true.
        cbn iota. rewrite to_lower_sep, Hsep, HAZ, orb_true_r. cbn [orb].
        rewrite to_upper_lower. f_equal. now apply (IH (is_az c)).
      * rewrite orb_false_r in Hok. subst b.
        cbn [toLowerCase pascal_scan]. rewrite to_lower_sep, Hsep. cbn [orb].
        rewrite to_upper_lower. f_equal. now apply (IH (is_az c)).
    + rewrite andb_false_r. cbn [toLowerCase pascal_scan].
      rewrite to_lower_sep, Hsep, to_lower_not_AZ, HAZ, !orb_false_r.
      destruct b.
      * rewrite to_upper_lower. f_equal. now apply (IH (is_az c)).
      * rewrite to_lower_idem. f_equal. now apply (IH (is_az c)).
Qed.

(** X14: under the kebab-case pattern the class name is [_toPascalCase] of
    the raw name whenever the raw name is made of seven-bit code units and
    every capital of [[A-Z]] in it stands at its start, after a separator
    or after a small letter of [[a-z]]. *)
Theorem kebab_keeps_the_class_name (raw : string) :
  all_ascii raw = true ->
  capitals_after_small true raw = true ->
  _toPascalCase (scaffold_name (Some KEBAB_CASE) raw) = _toPascalCase raw.
Proof.
  intros _ Hraw. cbn [scaffold_name]. unfold _toKebabCase.
  rewrite !toPascalCase_scan, replace_hyphenate.
  replace (Described.hyphenate is_az is_AZ raw) with (hyphen_then false raw)
    by (destruct raw; reflexivity).
  now apply (scan_of_kebab raw true).
Qed.

Lemma kebab_keeps_the_class_name_witness :
  _toPascalCase (scaffold_name (Some KEBAB_CASE) "orderTotal_Amount") =
  _toPascalCase "orderTotal_Amount".
Proof.
  exact (kebab_keeps_the_class_name "orderTotal_Amount" eq_refl eq_refl).
Defined.
